(** * CodeFlowOps test service: token codec, auth guard and in-memory store

    A shallow embedding of [fastapi-backend/main.py].  The module-level
    globals ([tasks_db], [users_db] and the two id counters) become one
    [Store] record that every handler threads explicitly; [raise
    HTTPException(...)] becomes the [Raise] branch of a two-constructor
    outcome type; [datetime.utcnow()] becomes an explicit clock argument.

    The handlers are [async def]s without a single [await] in their bodies,
    so under the event loop each of them runs to completion before the next
    one starts: a run of the service is a sequence of handler calls.  The
    guard of a route runs before its body and never touches the store; it
    is given the same clock reading as the body. *)

From Stdlib Require Import ZArith String List Lia Sorted.
From stdpp Require Import base option list gmap strings.
Import ListNotations.

Open Scope string_scope.
Open Scope list_scope.
Open Scope Z_scope.

(** ** Outcomes *)

(** A Python call either returns a value or raises an exception. *)
Inductive exc (E A : Type) : Type :=
| Return (a : A)
| Raise (e : E).
Arguments Return {E A} a.
Arguments Raise {E A} e.

Definition is_return {E A} (r : exc E A) : bool :=
  match r with Return _ => true | Raise _ => false end.

Record HTTPException := mkHTTPException {
  status_code : Z;
  detail : string
}.

(** ** Clock

    Clock readings are UTC seconds since the epoch, the resolution of the
    [exp] claim of a token. *)
Definition datetime := Z.

Definition timedelta (minutes : Z) : Z := minutes * 60.

(** ** The token library

    The [jwt] package (PyJWT) is imported by the source and is not part of
    the repository.  The model is symbolic: a token is either a string that
    does not parse, or a claim set together with the algorithm named in its
    header and the key its signature was computed with; a signature
    verifies under a key exactly when that key is the signing key.  Claim
    values are of the two kinds the service writes, strings and numbers. *)
Module jwt.

Inductive value :=
| VStr (s : string)
| VNum (n : Z).

Inductive token :=
| Unparsable (raw : string)
| Jws (alg : string) (signing_key : string) (payload : gmap string value).

Inductive PyJWTError :=
| DecodeError
| InvalidAlgorithmError
| InvalidSignatureError
| ExpiredSignatureError.

(** Modelled from the spec: [jwt.encode] is not in the sources.  The spec
    has the claims "signed with a process-wide secret key using a fixed
    symmetric algorithm": the token records the claim set, the key and the
    algorithm. *)
Definition encode (payload : gmap string value) (key algorithm : string) : token :=
  Jws algorithm key payload.

(** Modelled from the spec: the expiry validation inside [jwt.decode] is
    not in the sources.  The spec has a token valid while "it has not
    expired", by "comparing [expires_at] to current time"; a claim set
    without [exp] has no expiry to check, and an [exp] that is not a number
    does not decode. *)
Definition validate_exp (now : datetime) (payload : gmap string value)
  : exc PyJWTError unit :=
  match payload !! "exp" with
  | None => Return ()
  | Some (VNum exp) =>
      if exp <=? now then Raise ExpiredSignatureError else Return ()
  | Some (VStr _) => Raise DecodeError
  end.

(** Modelled from the spec: [jwt.decode] is not in the sources.  The spec
    has it parse the token and verify "the signature and expiry", failing
    when "the signature does not verify" or "the token is malformed"; the
    signature is checked with one of the [algorithms] the caller allows. *)
Definition decode (now : datetime) (jwt : token) (key : string)
    (algorithms : list string) : exc PyJWTError (gmap string value) :=
  match jwt with
  | Unparsable _ => Raise DecodeError
  | Jws alg signing_key payload =>
      if negb (bool_decide (alg ∈ algorithms)) then Raise InvalidAlgorithmError
      else if negb (String.eqb signing_key key) then Raise InvalidSignatureError
      else match validate_exp now payload with
           | Return _ => Return payload
           | Raise e => Raise e
           end
  end.

End jwt.

(** ** Request and response models *)

Module TaskCreate.
Record t := mk {
  title : string;
  description : option string;
  priority : string
}.
End TaskCreate.

Module Task.
Record t := mk {
  id : Z;
  title : string;
  description : option string;
  priority : string;
  completed : bool;
  created_at : datetime
}.
End Task.

Module UserCreate.
Record t := mk {
  username : string;
  email : string;
  password : string
}.
End UserCreate.

Module User.
Record t := mk {
  id : Z;
  username : string;
  email : string;
  created_at : datetime
}.
End User.

Module Token.
Record t := mk {
  access_token : jwt.token;
  token_type : string
}.
End Token.

Record HTTPAuthorizationCredentials := mkCredentials {
  scheme : string;
  credentials : jwt.token
}.

(** ** The in-memory data store *)

Record Store := mkStore {
  tasks_db : list Task.t;
  users_db : list User.t;
  task_id_counter : Z;
  user_id_counter : Z
}.

Definition initial_store : Store :=
  {| tasks_db := []; users_db := []; task_id_counter := 1; user_id_counter := 1 |}.

Definition set_tasks_db (l : list Task.t) (st : Store) : Store :=
  {| tasks_db := l; users_db := users_db st;
     task_id_counter := task_id_counter st;
     user_id_counter := user_id_counter st |}.

Definition set_users_db (l : list User.t) (st : Store) : Store :=
  {| tasks_db := tasks_db st; users_db := l;
     task_id_counter := task_id_counter st;
     user_id_counter := user_id_counter st |}.

Definition set_task_id_counter (n : Z) (st : Store) : Store :=
  {| tasks_db := tasks_db st; users_db := users_db st;
     task_id_counter := n;
     user_id_counter := user_id_counter st |}.

Definition set_user_id_counter (n : Z) (st : Store) : Store :=
  {| tasks_db := tasks_db st; users_db := users_db st;
     task_id_counter := task_id_counter st;
     user_id_counter := n |}.

(** [task.title = ...; task.description = ...; task.priority = ...] *)
Definition assign_fields (task_update : TaskCreate.t) (task : Task.t) : Task.t :=
  {| Task.id := Task.id task;
     Task.title := TaskCreate.title task_update;
     Task.description := TaskCreate.description task_update;
     Task.priority := TaskCreate.priority task_update;
     Task.completed := Task.completed task;
     Task.created_at := Task.created_at task |}.

(** [task.completed = True] *)
Definition assign_completed (task : Task.t) : Task.t :=
  {| Task.id := Task.id task;
     Task.title := Task.title task;
     Task.description := Task.description task;
     Task.priority := Task.priority task;
     Task.completed := true;
     Task.created_at := Task.created_at task |}.

(** [next((x for x in l if p(x)), None)] *)
Definition next {A} (p : A -> bool) (l : list A) : option A := List.find p l.

(** Assigning to the attributes of the object that [next] returned changes
    that one element of the list, and no other. *)
Fixpoint mutate_first {A} (p : A -> bool) (f : A -> A) (l : list A) : list A :=
  match l with
  | [] => []
  | x :: rest => if p x then f x :: rest else x :: mutate_first p f rest
  end.

Definition ALGORITHM : string := "HS256".
Definition ACCESS_TOKEN_EXPIRE_MINUTES : Z := 30.

Section Service.

(** The process environment, read once at start-up. *)
Variable environ : gmap string string.

Definition getenv (name fallback : string) : string :=
  default fallback (environ !! name).

Definition SECRET_KEY : string :=
  getenv "SECRET_KEY" "your-secret-key-change-in-production".

(** *** Helper functions *)

Definition create_access_token (now : datetime) (data : gmap string jwt.value)
  : jwt.token :=
  let to_encode := data in
  let expire := now + timedelta ACCESS_TOKEN_EXPIRE_MINUTES in
  let to_encode := <["exp" := jwt.VNum expire]> to_encode in
  let encoded_jwt := jwt.encode to_encode SECRET_KEY ALGORITHM in
  encoded_jwt.

Definition verify_token (now : datetime) (creds : HTTPAuthorizationCredentials)
  : exc HTTPException jwt.value :=
  match jwt.decode now (credentials creds) SECRET_KEY [ALGORITHM] with
  | Return payload =>
      let username := payload !! "sub" in
      match username with
      | None => Raise (mkHTTPException 401 "Invalid token")
      | Some username => Return username
      end
  | Raise _ => Raise (mkHTTPException 401 "Invalid token")
  end.

(** Modelled from the spec: [security = HTTPBearer()] comes from FastAPI and
    is not in the sources.  The spec has the guard require "a well-formed
    bearer credential in the request's authorization header" and answer its
    absence with an error "surfaced as 401/403"; 403 is the status FastAPI
    sends.  The argument is the header already split into scheme and
    credential, [None] when it is missing or is not a bearer credential. *)
Definition security (authorization : option HTTPAuthorizationCredentials)
  : exc HTTPException HTTPAuthorizationCredentials :=
  match authorization with
  | Some creds => Return creds
  | None => Raise (mkHTTPException 403 "Not authenticated")
  end.

(** [username: str = Depends(verify_token)]: the dependency chain runs
    before the handler body, and an exception raised in it is the
    response. *)
Definition Depends {A} (now : datetime)
    (authorization : option HTTPAuthorizationCredentials)
    (handler : jwt.value -> Store -> exc HTTPException A * Store)
    (st : Store) : exc HTTPException A * Store :=
  match security authorization with
  | Raise e => (Raise e, st)
  | Return creds =>
      match verify_token now creds with
      | Raise e => (Raise e, st)
      | Return username => handler username st
      end
  end.

(** *** Task management *)

Definition create_task (now : datetime) (task : TaskCreate.t)
    (username : jwt.value) (st : Store) : exc HTTPException Task.t * Store :=
  let new_task :=
    {| Task.id := task_id_counter st;
       Task.title := TaskCreate.title task;
       Task.description := TaskCreate.description task;
       Task.priority := TaskCreate.priority task;
       Task.completed := false;
       Task.created_at := now |} in
  let st := set_tasks_db (tasks_db st ++ [new_task]) st in
  let st := set_task_id_counter (task_id_counter st + 1) st in
  (Return new_task, st).

Definition get_tasks (username : jwt.value) (st : Store)
  : exc HTTPException (list Task.t) * Store :=
  (Return (tasks_db st), st).

Definition get_task (task_id : Z) (username : jwt.value) (st : Store)
  : exc HTTPException Task.t * Store :=
  match next (fun t => Task.id t =? task_id) (tasks_db st) with
  | None => (Raise (mkHTTPException 404 "Task not found"), st)
  | Some task => (Return task, st)
  end.

Definition update_task (task_id : Z) (task_update : TaskCreate.t)
    (username : jwt.value) (st : Store) : exc HTTPException Task.t * Store :=
  match next (fun t => Task.id t =? task_id) (tasks_db st) with
  | None => (Raise (mkHTTPException 404 "Task not found"), st)
  | Some task =>
      let assign := assign_fields task_update in
      (Return (assign task),
       set_tasks_db
         (mutate_first (fun t => Task.id t =? task_id) assign (tasks_db st)) st)
  end.

Definition delete_task (task_id : Z) (username : jwt.value) (st : Store)
  : exc HTTPException string * Store :=
  let st :=
    set_tasks_db
      (List.filter (fun t => negb (Task.id t =? task_id)) (tasks_db st)) st in
  (Return "Task deleted successfully", st).

Definition complete_task (task_id : Z) (username : jwt.value) (st : Store)
  : exc HTTPException Task.t * Store :=
  match next (fun t => Task.id t =? task_id) (tasks_db st) with
  | None => (Raise (mkHTTPException 404 "Task not found"), st)
  | Some task =>
      (Return (assign_completed task),
       set_tasks_db
         (mutate_first (fun t => Task.id t =? task_id) assign_completed
            (tasks_db st)) st)
  end.

(** *** User management *)

Definition create_user (now : datetime) (user : UserCreate.t) (st : Store)
  : exc HTTPException User.t * Store :=
  if existsb (fun u => String.eqb (User.username u) (UserCreate.username user))
       (users_db st)
  then (Raise (mkHTTPException 400 "Username already exists"), st)
  else
    let new_user :=
      {| User.id := user_id_counter st;
         User.username := UserCreate.username user;
         User.email := UserCreate.email user;
         User.created_at := now |} in
    let st := set_users_db (users_db st ++ [new_user]) st in
    let st := set_user_id_counter (user_id_counter st + 1) st in
    (Return new_user, st).

Definition get_users (st : Store) : exc HTTPException (list User.t) * Store :=
  (Return (users_db st), st).

(** *** Authentication *)

Definition login (now : datetime) (username password : string) (st : Store)
  : exc HTTPException Token.t * Store :=
  match next (fun u => String.eqb (User.username u) username) (users_db st) with
  | None => (Raise (mkHTTPException 401 "Invalid credentials"), st)
  | Some user =>
      let access_token :=
        create_access_token now {[ "sub" := jwt.VStr username ]} in
      (Return {| Token.access_token := access_token;
                 Token.token_type := "bearer" |}, st)
  end.

(** [u.username == username] where [username] is whatever the token
    carried as its subject. *)
Definition username_is (username : jwt.value) (u : User.t) : bool :=
  match username with
  | jwt.VStr s => String.eqb (User.username u) s
  | jwt.VNum _ => false
  end.

Definition get_current_user (username : jwt.value) (st : Store)
  : exc HTTPException User.t * Store :=
  match next (username_is username) (users_db st) with
  | None => (Raise (mkHTTPException 404 "User not found"), st)
  | Some user => (Return user, st)
  end.

(** *** The application

    One request to a store endpoint: the route, its path and body
    parameters, and for the guarded routes the authorization header.  The
    informational routes ([/], [/health], [/api/v1/status],
    [/api/v1/analytics], [/api/v1/environment]) only read and are left out. *)
Inductive request :=
| POST_tasks (authorization : option HTTPAuthorizationCredentials)
    (task : TaskCreate.t)
| GET_tasks (authorization : option HTTPAuthorizationCredentials)
| GET_task (authorization : option HTTPAuthorizationCredentials) (task_id : Z)
| PUT_task (authorization : option HTTPAuthorizationCredentials) (task_id : Z)
    (task_update : TaskCreate.t)
| DELETE_task (authorization : option HTTPAuthorizationCredentials) (task_id : Z)
| PATCH_task_complete (authorization : option HTTPAuthorizationCredentials)
    (task_id : Z)
| POST_users (user : UserCreate.t)
| GET_users
| POST_auth_login (username password : string)
| GET_auth_me (authorization : option HTTPAuthorizationCredentials).

Inductive body :=
| TaskBody (task : Task.t)
| TaskListBody (tasks : list Task.t)
| MessageBody (message : string)
| UserBody (user : User.t)
| UserListBody (users : list User.t)
| TokenBody (token : Token.t).

Definition respond {A} (wrap : A -> body) (r : exc HTTPException A * Store)
  : exc HTTPException body * Store :=
  match r with
  | (Return a, st) => (Return (wrap a), st)
  | (Raise e, st) => (Raise e, st)
  end.

(** The router: [now] is the clock reading while the request is served. *)
Definition app (now : datetime) (req : request) (st : Store)
  : exc HTTPException body * Store :=
  match req with
  | POST_tasks auth task =>
      respond TaskBody (Depends now auth (create_task now task) st)
  | GET_tasks auth =>
      respond TaskListBody (Depends now auth get_tasks st)
  | GET_task auth task_id =>
      respond TaskBody (Depends now auth (get_task task_id) st)
  | PUT_task auth task_id task_update =>
      respond TaskBody (Depends now auth (update_task task_id task_update) st)
  | DELETE_task auth task_id =>
      respond MessageBody (Depends now auth (delete_task task_id) st)
  | PATCH_task_complete auth task_id =>
      respond TaskBody (Depends now auth (complete_task task_id) st)
  | POST_users user =>
      respond UserBody (create_user now user st)
  | GET_users =>
      respond UserListBody (get_users st)
  | POST_auth_login username password =>
      respond TokenBody (login now username password st)
  | GET_auth_me auth =>
      respond UserBody (Depends now auth get_current_user st)
  end.

(** A process lifetime: requests served one after the other, each with the
    clock reading at which it is served.  The result pairs every request
    with its response, in order. *)
Fixpoint serve (reqs : list (datetime * request)) (st : Store)
  : list (request * exc HTTPException body) * Store :=
  match reqs with
  | [] => ([], st)
  | (now, req) :: rest =>
      let '(resp, st1) := app now req st in
      let '(log, st2) := serve rest st1 in
      ((req, resp) :: log, st2)
  end.

(** Whether a request presenting [authorization] at [now] gets past the
    guard. *)
Definition passes_guard (now : datetime)
    (authorization : option HTTPAuthorizationCredentials) : bool :=
  match security authorization with
  | Raise _ => false
  | Return creds => is_return (verify_token now creds)
  end.

(** The task-creation requests of a run that get past the guard. *)
Definition guarded_task_creation (entry : datetime * request) : bool :=
  match entry with
  | (now, POST_tasks auth _) => passes_guard now auth
  | _ => false
  end.

End Service.

(** ** Reading a served log *)

(** The ids the task-creation route handed out, in the order served. *)
Fixpoint assigned_task_ids (log : list (request * exc HTTPException body))
  : list Z :=
  match log with
  | [] => []
  | (POST_tasks _ _, Return (TaskBody task)) :: rest =>
      Task.id task :: assigned_task_ids rest
  | _ :: rest => assigned_task_ids rest
  end.

(** The ids the user-creation route handed out, in the order served. *)
Fixpoint assigned_user_ids (log : list (request * exc HTTPException body))
  : list Z :=
  match log with
  | [] => []
  | (POST_users _, Return (UserBody user)) :: rest =>
      User.id user :: assigned_user_ids rest
  | _ :: rest => assigned_user_ids rest
  end.

(** ** What a token carries

    The vocabulary of the token claims: whether the signature of a token
    verifies under a key (with the service's algorithm), whether the token
    is still within its lifetime, and what subject it names. *)

Definition claims_of (tok : jwt.token) : option (gmap string jwt.value) :=
  match tok with
  | jwt.Unparsable _ => None
  | jwt.Jws _ _ payload => Some payload
  end.

Definition signature_verifies (key : string) (tok : jwt.token) : Prop :=
  exists payload, tok = jwt.Jws ALGORITHM key payload.

(** A token without an [exp] claim never expires; an [exp] that is not a
    number gives the token no lifetime at all. *)
Definition unexpired (now : datetime) (tok : jwt.token) : Prop :=
  match claims_of tok with
  | None => False
  | Some payload =>
      match payload !! "exp" with
      | None => True
      | Some (jwt.VNum exp) => now < exp
      | Some (jwt.VStr _) => False
      end
  end.

Definition claim (name : string) (tok : jwt.token) : option jwt.value :=
  match claims_of tok with
  | None => None
  | Some payload => payload !! name
  end.

Definition subject (tok : jwt.token) : option jwt.value := claim "sub" tok.

Definition carries_subject (tok : jwt.token) : Prop :=
  exists s, subject tok = Some s.

Definition carries_nonempty_subject (tok : jwt.token) : Prop :=
  exists s, subject tok = Some s /\ s <> jwt.VStr "".

Definition Bearer (tok : jwt.token) : HTTPAuthorizationCredentials :=
  {| scheme := "Bearer"; credentials := tok |}.

Definition Invalid_token : HTTPException := mkHTTPException 401 "Invalid token".
Definition Task_not_found : HTTPException := mkHTTPException 404 "Task not found".

(** The claim set [{"sub": username}]. *)
Definition sub_claims (username : string) : gmap string jwt.value :=
  {[ "sub" := jwt.VStr username ]}.

(** ** Informational routes *)

Module Analytics.
Record t := mk {
  total_tasks : Z;
  completed_tasks : Z;
  total_users : Z;
  api_calls : string;
  average_response_time : string;
  uptime : string;
  last_updated : datetime
}.
End Analytics.

Module Features.
Record t := mk {
  authentication : bool;
  task_management : bool;
  user_management : bool;
  analytics : bool
}.
End Features.

Module EnvironmentInfo.
Record t := mk {
  environment : string;
  database_url : string;
  secret_key_set : bool;
  cors_enabled : bool;
  features_enabled : Features.t
}.
End EnvironmentInfo.

(** [len(l)] *)
Definition len {A} (l : list A) : Z := Z.of_nat (length l).

(** [bool(os.getenv(name))]: a variable that is unset reads as [None], and
    both [None] and the empty string are false. *)
Definition truthy (v : option string) : bool :=
  match v with
  | None => false
  | Some s => negb (String.eqb s "")
  end.

(** [last_updated] holds the clock reading that the source renders as ISO
    text. *)
Definition get_analytics (now : datetime) (st : Store)
  : exc HTTPException Analytics.t * Store :=
  (Return
     {| Analytics.total_tasks := len (tasks_db st);
        Analytics.completed_tasks :=
          len (List.filter (fun t => Task.completed t) (tasks_db st));
        Analytics.total_users := len (users_db st);
        Analytics.api_calls := "tracked";
        Analytics.average_response_time := "< 50ms";
        Analytics.uptime := "99.9%";
        Analytics.last_updated := now |}, st).

Definition get_environment (environ : gmap string string) (st : Store)
  : exc HTTPException EnvironmentInfo.t * Store :=
  (Return
     {| EnvironmentInfo.environment := getenv environ "ENVIRONMENT" "development";
        EnvironmentInfo.database_url :=
          getenv environ "DATABASE_URL" "sqlite:///./test.db";
        EnvironmentInfo.secret_key_set := truthy (environ !! "SECRET_KEY");
        EnvironmentInfo.cors_enabled := true;
        EnvironmentInfo.features_enabled :=
          {| Features.authentication := true;
             Features.task_management := true;
             Features.user_management := true;
             Features.analytics := true |} |}, st).

(** ** Vocabulary for runs of the service *)


Definition task_ids (st : Store) : list Z := List.map Task.id (tasks_db st).
Definition user_ids (st : Store) : list Z := List.map User.id (users_db st).
Definition usernames (st : Store) : list string :=
  List.map User.username (users_db st).

(** What every store the service can reach satisfies. *)
Definition consistent (st : Store) : Prop :=
  1 <= task_id_counter st
  /\ StronglySorted Z.lt (task_ids st)
  /\ Forall (fun i => 1 <= i < task_id_counter st) (task_ids st)
  /\ user_ids st = seqZ 1 (len (users_db st))
  /\ user_id_counter st = 1 + len (users_db st)
  /\ NoDup (usernames st).

(** ** Token codec *)

Section TokenCodec.

Variable environ : gmap string string.

Lemma decode_own_key now payload :
  jwt.decode now (jwt.Jws ALGORITHM (SECRET_KEY environ) payload)
    (SECRET_KEY environ) [ALGORITHM]
  = match jwt.validate_exp now payload with
    | Return _ => Return payload
    | Raise e => Raise e
    end.
Proof.
  unfold jwt.decode.
  rewrite bool_decide_eq_true_2 by (apply list_elem_of_singleton; reflexivity).
  rewrite String.eqb_refl. reflexivity.
Qed.

(** Verifying, at any later clock reading, a token this process issued. *)
Lemma verify_issued t0 now data :
  verify_token environ now (Bearer (create_access_token environ t0 data))
  = if t0 + 30 * 60 <=? now then Raise Invalid_token
    else match data !! "sub" with
         | Some s => Return s
         | None => Raise Invalid_token
         end.
Proof.
  unfold verify_token, create_access_token, jwt.encode, Bearer. cbn [credentials].
  rewrite decode_own_key. unfold jwt.validate_exp.
  rewrite lookup_insert_eq.
  unfold timedelta, ACCESS_TOKEN_EXPIRE_MINUTES.
  destruct (t0 + 30 * 60 <=? now); [reflexivity|].
  rewrite lookup_insert_ne by discriminate.
  destruct (data !! "sub"); reflexivity.
Qed.

Lemma verify_token_cases now creds :
  match verify_token environ now creds with
  | Return s =>
      signature_verifies (SECRET_KEY environ) (credentials creds)
      /\ unexpired now (credentials creds)
      /\ subject (credentials creds) = Some s
  | Raise e =>
      e = Invalid_token
      /\ ~ (signature_verifies (SECRET_KEY environ) (credentials creds)
            /\ unexpired now (credentials creds)
            /\ carries_subject (credentials creds))
  end.
Proof.
  destruct creds as [sch tok]; cbn [credentials].
  destruct tok as [raw | alg key payload].
  - cbn. split; [reflexivity|].
    intros (_ & Hexp & _). exact Hexp.
  - unfold verify_token; cbn [credentials jwt.decode].
    destruct (bool_decide (alg ∈ [ALGORITHM])) eqn:Halg; cbn [negb].
    2:{ split; [reflexivity|]. intros ([p Hp] & _ & _).
        apply bool_decide_eq_false in Halg. apply Halg.
        injection Hp as Ha _ _. apply list_elem_of_singleton. exact Ha. }
    apply bool_decide_eq_true, list_elem_of_singleton in Halg. subst alg.
    destruct (String.eqb key (SECRET_KEY environ)) eqn:Hkey; cbn [negb].
    2:{ split; [reflexivity|]. intros ([p Hp] & _ & _).
        injection Hp as Hk _. rewrite Hk, String.eqb_refl in Hkey.
        discriminate. }
    apply String.eqb_eq in Hkey. subst key.
    unfold jwt.validate_exp, unexpired, carries_subject, subject, claim.
    cbn [claims_of].
    destruct (payload !! "exp") as [[e | exp] |] eqn:Hexp.
    + split; [reflexivity|]. intros (_ & [] & _).
    + destruct (exp <=? now) eqn:Hle.
      * split; [reflexivity|]. intros (_ & Hlt & _).
        apply Z.leb_le in Hle. lia.
      * apply Z.leb_gt in Hle.
        destruct (payload !! "sub") as [s|] eqn:Hsub.
        -- split; [eexists; reflexivity|]. split; [exact Hle | reflexivity].
        -- split; [reflexivity|]. intros (_ & _ & [s Hs]). discriminate.
    + destruct (payload !! "sub") as [s|] eqn:Hsub.
      * split; [eexists; reflexivity|]. split; [exact I | reflexivity].
      * split; [reflexivity|]. intros (_ & _ & [s Hs]). discriminate.
Qed.

(** C1 (as amended): [verify_token] returns [s] if and only if the
    signature of the token verifies under the process-wide secret key, the
    token has not expired at the current clock reading, and its subject
    claim is present with value [s] (the empty string included); in every
    other case it raises the one 401 "Invalid token" error. *)
Theorem verify_token_characterised now creds :
  (forall s,
     verify_token environ now creds = Return s
     <-> (signature_verifies (SECRET_KEY environ) (credentials creds)
          /\ unexpired now (credentials creds)
          /\ subject (credentials creds) = Some s))
  /\ ((exists s, verify_token environ now creds = Return s)
      \/ verify_token environ now creds = Raise Invalid_token).
Proof.
  pose proof (verify_token_cases now creds) as Hcases.
  destruct (verify_token environ now creds) as [s0 | e].
  - split; [|left; eauto].
    intros s. split.
    + intros [= <-]. exact Hcases.
    + intros (_ & _ & Hs). destruct Hcases as (_ & _ & Hs0). congruence.
  - destruct Hcases as [-> Hnot]. split; [|right; reflexivity].
    intros s. split; [discriminate|].
    intros (Hsig & Hexp & Hs). destruct Hnot.
    split; [exact Hsig|]. split; [exact Hexp|]. exists s. exact Hs.
Qed.

(** C2: for a non-empty subject [u], verifying the token issued for [u],
    under the same secret key and at the clock reading of its issuance,
    returns [u]. *)
Theorem verify_issue_roundtrip now (u : string) :
  u <> "" ->
  verify_token environ now
    (Bearer (create_access_token environ now (sub_claims u)))
  = Return (jwt.VStr u).
Proof.
  intros _. rewrite verify_issued.
  replace (now + 30 * 60 <=? now) with false by (symmetry; apply Z.leb_gt; lia).
  unfold sub_claims. rewrite lookup_singleton_eq. reflexivity.
Qed.

(** C3: a token issued at [t0] carries [exp = t0 + 30 minutes]; it verifies
    at [t0 + 29 minutes] and is rejected at [t0 + 31 minutes]. *)
Theorem issued_token_expiry t0 (u : string) :
  let tok := create_access_token environ t0 (sub_claims u) in
  claim "exp" tok = Some (jwt.VNum (t0 + timedelta 30))
  /\ verify_token environ (t0 + timedelta 29) (Bearer tok) = Return (jwt.VStr u)
  /\ verify_token environ (t0 + timedelta 31) (Bearer tok) = Raise Invalid_token.
Proof.
  cbn zeta. rewrite !verify_issued. unfold timedelta. split; [|split].
  - unfold claim, create_access_token, jwt.encode. cbn [claims_of].
    rewrite lookup_insert_eq. reflexivity.
  - replace (t0 + 30 * 60 <=? t0 + 29 * 60) with false
      by (symmetry; apply Z.leb_gt; lia).
    unfold sub_claims. rewrite lookup_singleton_eq. reflexivity.
  - replace (t0 + 30 * 60 <=? t0 + 31 * 60) with true
      by (symmetry; apply Z.leb_le; lia).
    reflexivity.
Qed.

End TokenCodec.

(** ** Entity store *)

Section Lookup.

Context {A : Type} (p : A -> bool).

Lemma next_absent (l : list A) :
  (forall x, x ∈ l -> p x = false) -> next p l = None.
Proof.
  induction l as [|x l IH]; intros Hall; [reflexivity|].
  unfold next in *. cbn [List.find].
  rewrite (Hall x) by apply list_elem_of_here.
  apply IH. intros y Hy. apply Hall, list_elem_of_further, Hy.
Qed.

Lemma next_present (l : list A) :
  (exists x, x ∈ l /\ p x = true) -> exists y, next p l = Some y.
Proof.
  intros (x & Hin & Hpx).
  destruct (next p l) as [y|] eqn:Hnext; [eauto|].
  apply List.find_none with (x := x) in Hnext; [congruence|].
  apply list_elem_of_In, Hin.
Qed.

(** The element [next] returns is the first match, and [mutate_first]
    rewrites that element and keeps everything around it. *)
Lemma next_first_match (f : A -> A) (l : list A) (x : A) :
  next p l = Some x ->
  exists before after,
    l = before ++ x :: after
    /\ Forall (fun y => p y = false) before
    /\ p x = true
    /\ mutate_first p f l = before ++ f x :: after.
Proof.
  induction l as [|y l IH]; [discriminate|].
  unfold next in *. cbn [List.find mutate_first].
  destruct (p y) eqn:Hy.
  - intros [= ->]. exists [], l. repeat split; auto.
  - intros Hfind. destruct (IH Hfind) as (before & after & -> & Hbefore & Hx & Hmut).
    exists (y :: before), after. rewrite Hmut. repeat split; auto.
Qed.

End Lookup.

Lemma id_eqb_false task_id (l : list Task.t) :
  (forall t, t ∈ l -> Task.id t <> task_id) ->
  forall t, t ∈ l -> (Task.id t =? task_id) = false.
Proof. intros Hall t Ht. apply Z.eqb_neq, Hall, Ht. Qed.

(** The comprehension [[t for t in l if t.id != task_id]] keeps what the
    filter by the proposition [t.id ≠ task_id] keeps. *)
Lemma comprehension_filter task_id (l : list Task.t) :
  List.filter (fun t => negb (Task.id t =? task_id)) l
  = filter (fun t => Task.id t <> task_id) l.
Proof.
  induction l as [|t l IH]; [reflexivity|].
  cbn [List.filter]. rewrite filter_cons, IH.
  destruct (Z.eqb_spec (Task.id t) task_id) as [Heq|Hne]; cbn [negb].
  - rewrite decide_False by (intros H; apply H, Heq). reflexivity.
  - rewrite decide_True by exact Hne. reflexivity.
Qed.

Lemma comprehension_twice {A} (q : A -> bool) (l : list A) :
  List.filter q (List.filter q l) = List.filter q l.
Proof.
  induction l as [|x l IH]; [reflexivity|].
  cbn [List.filter]. destruct (q x) eqn:Hx; [|exact IH].
  cbn [List.filter]. rewrite Hx, IH. reflexivity.
Qed.

(** C10: when no stored task has the requested id, [get_task],
    [update_task] and [complete_task] raise 404 "Task not found" and hand
    back the store they were given: both collections and both counters. *)
Theorem lookup_failure_leaves_store task_id fields username (st : Store) :
  (forall t, t ∈ tasks_db st -> Task.id t <> task_id) ->
  get_task task_id username st = (Raise Task_not_found, st)
  /\ update_task task_id fields username st = (Raise Task_not_found, st)
  /\ complete_task task_id username st = (Raise Task_not_found, st).
Proof.
  intros Habsent. unfold get_task, update_task, complete_task.
  rewrite next_absent by (apply id_eqb_false, Habsent).
  repeat split.
Qed.

(** C6: when a task with the requested id is stored, [update_task]
    rewrites that task (the first with the id, in insertion order) and
    nothing else: its title, description and priority become the supplied
    ones, its id, completed flag and creation time stay, every task before
    and after it stays, and so do the users and both counters.  When no
    task has the id, the call raises 404 "Task not found". *)
Theorem update_task_frame task_id fields username (st : Store) :
  ((exists t, t ∈ tasks_db st /\ Task.id t = task_id) ->
   exists before task after updated st',
     tasks_db st = before ++ task :: after
     /\ Forall (fun t => Task.id t <> task_id) before
     /\ Task.id task = task_id
     /\ update_task task_id fields username st = (Return updated, st')
     /\ tasks_db st' = before ++ updated :: after
     /\ users_db st' = users_db st
     /\ task_id_counter st' = task_id_counter st
     /\ user_id_counter st' = user_id_counter st
     /\ Task.title updated = TaskCreate.title fields
     /\ Task.description updated = TaskCreate.description fields
     /\ Task.priority updated = TaskCreate.priority fields
     /\ Task.id updated = Task.id task
     /\ Task.completed updated = Task.completed task
     /\ Task.created_at updated = Task.created_at task)
  /\ ((forall t, t ∈ tasks_db st -> Task.id t <> task_id) ->
      update_task task_id fields username st = (Raise Task_not_found, st)).
Proof.
  split.
  - intros (t & Hin & Hid).
    destruct (next_present (fun t => Task.id t =? task_id) (tasks_db st))
      as [task Hnext].
    { exists t. split; [exact Hin | apply Z.eqb_eq, Hid]. }
    destruct (next_first_match _ (assign_fields fields) _ _ Hnext)
      as (before & after & Hsplit & Hbefore & Htask & Hmut).
    exists before, task, after, (assign_fields fields task).
    eexists. unfold update_task. rewrite Hnext, Hmut.
    split; [exact Hsplit|].
    split.
    { eapply Forall_impl; [exact Hbefore|]. intros a Ha. apply Z.eqb_neq, Ha. }
    split; [apply Z.eqb_eq, Htask|].
    split; [reflexivity|].
    repeat split.
  - intros Habsent. unfold update_task.
    rewrite next_absent by (apply id_eqb_false, Habsent). reflexivity.
Qed.

(** C7: [delete_task] always returns its success message.  Afterwards the
    task list is the old one without the tasks of that id, the others kept
    as they were and in their order; users and counters are untouched;
    [get_task] for that id raises 404; and deleting again changes nothing. *)
Theorem delete_task_removes task_id username username' (st : Store) :
  exists st',
    delete_task task_id username st = (Return "Task deleted successfully", st')
    /\ tasks_db st' = filter (fun t => Task.id t <> task_id) (tasks_db st)
    /\ (forall t, t ∈ tasks_db st' <-> t ∈ tasks_db st /\ Task.id t <> task_id)
    /\ sublist (tasks_db st') (tasks_db st)
    /\ users_db st' = users_db st
    /\ task_id_counter st' = task_id_counter st
    /\ user_id_counter st' = user_id_counter st
    /\ get_task task_id username' st' = (Raise Task_not_found, st')
    /\ delete_task task_id username' st'
       = (Return "Task deleted successfully", st').
Proof.
  eexists. split; [reflexivity|]. cbn [tasks_db users_db task_id_counter
    user_id_counter set_tasks_db].
  assert (Hgone : forall t,
    t ∈ List.filter (fun t => negb (Task.id t =? task_id)) (tasks_db st) ->
    Task.id t <> task_id).
  { intros t Ht. rewrite comprehension_filter in Ht.
    apply list_elem_of_filter in Ht. tauto. }
  split; [apply comprehension_filter|].
  split; [intros t; rewrite comprehension_filter, list_elem_of_filter; tauto|].
  split; [rewrite comprehension_filter; apply sublist_filter|].
  do 3 (split; [reflexivity|]).
  split.
  - unfold get_task. cbn [tasks_db set_tasks_db].
    rewrite next_absent by (apply id_eqb_false, Hgone). reflexivity.
  - unfold delete_task, set_tasks_db. cbn [tasks_db users_db task_id_counter
      user_id_counter].
    rewrite comprehension_twice. reflexivity.
Qed.

(** C5: [create_user] raises 400 "Username already exists" exactly when a
    stored user has the requested username, and then returns the store it
    was given.  Otherwise it returns a new user with the next user id, the
    request's username and email and the current clock reading, appended
    after the stored users, with the user id counter moved on by one.  The
    password plays no part. *)
Theorem create_user_conflict now user (st : Store) :
  let taken :=
    exists u, u ∈ users_db st /\ User.username u = UserCreate.username user in
  let new_user :=
    {| User.id := user_id_counter st;
       User.username := UserCreate.username user;
       User.email := UserCreate.email user;
       User.created_at := now |} in
  (taken <->
   create_user now user st
   = (Raise (mkHTTPException 400 "Username already exists"), st))
  /\ (~ taken <->
      create_user now user st
      = (Return new_user,
         {| tasks_db := tasks_db st;
            users_db := users_db st ++ [new_user];
            task_id_counter := task_id_counter st;
            user_id_counter := user_id_counter st + 1 |})).
Proof.
  cbn zeta. unfold create_user.
  destruct (existsb _ (users_db st)) eqn:Hex.
  - assert (Htaken : exists u,
      u ∈ users_db st /\ User.username u = UserCreate.username user).
    { apply List.existsb_exists in Hex as (u & Hin & Hu).
      exists u. split; [apply list_elem_of_In, Hin | apply String.eqb_eq, Hu]. }
    split; split; try discriminate; auto. intros Hnot. destruct (Hnot Htaken).
  - assert (Hfree : ~ exists u,
      u ∈ users_db st /\ User.username u = UserCreate.username user).
    { intros (u & Hin & Hu).
      assert (existsb
        (fun u => String.eqb (User.username u) (UserCreate.username user))
        (users_db st) = true) as Hyes; [|congruence].
      apply List.existsb_exists. exists u.
      split; [apply list_elem_of_In, Hin | apply String.eqb_eq, Hu]. }
    split; split; try discriminate; auto. intros Htaken. destruct (Hfree Htaken).
Qed.

(** ** Auth guard and login *)

Section Guard.

Variable environ : gmap string string.

(** C8: [login] never looks at [password].  When a stored user has the
    username, it returns (for whatever password) a bearer token issued for
    that username, whose subject claim is the username and which verifies
    to it at once; when no stored user has the username, it raises 401
    "Invalid credentials".  The store is not changed either way. *)
Theorem login_ignores_password now username password (st : Store) :
  ((exists u, u ∈ users_db st /\ User.username u = username) ->
   exists tok,
     login environ now username password st
     = (Return {| Token.access_token := tok; Token.token_type := "bearer" |}, st)
     /\ tok = create_access_token environ now (sub_claims username)
     /\ subject tok = Some (jwt.VStr username)
     /\ verify_token environ now (Bearer tok) = Return (jwt.VStr username))
  /\ ((forall u, u ∈ users_db st -> User.username u <> username) ->
      login environ now username password st
      = (Raise (mkHTTPException 401 "Invalid credentials"), st)).
Proof.
  split.
  - intros (u & Hin & Hu).
    destruct (next_present (fun u => String.eqb (User.username u) username)
                (users_db st)) as [user Hnext].
    { exists u. split; [exact Hin | apply String.eqb_eq, Hu]. }
    eexists. unfold login. rewrite Hnext.
    split; [reflexivity|]. split; [reflexivity|]. split.
    + unfold subject, claim, create_access_token, jwt.encode, sub_claims.
      cbn [claims_of].
      rewrite lookup_insert_ne by discriminate.
      apply lookup_singleton_eq.
    + rewrite verify_issued.
      replace (now + 30 * 60 <=? now) with false
        by (symmetry; apply Z.leb_gt; lia).
      unfold sub_claims. rewrite lookup_singleton_eq. reflexivity.
  - intros Habsent. unfold login. rewrite next_absent; [reflexivity|].
    intros u Hu. apply String.eqb_neq, Habsent, Hu.
Qed.

(** C9: the guard never reads the user collection.  A request whose token
    verifies to [s] gets past the guard whatever users are stored (none at
    all, for instance): the guarded handler runs with [s], listing the
    tasks returns the task list with status 200, and creating and deleting
    a task succeed. *)
Theorem guard_ignores_users now creds s (st : Store) :
  verify_token environ now creds = Return s ->
  forall users,
    let st0 := set_users_db users st in
    passes_guard environ now (Some creds) = true
    /\ (forall A (handler : jwt.value -> Store -> exc HTTPException A * Store),
          Depends environ now (Some creds) handler st0 = handler s st0)
    /\ app environ now (GET_tasks (Some creds)) st0
       = (Return (TaskListBody (tasks_db st)), st0)
    /\ (forall task,
          is_return (fst (app environ now (POST_tasks (Some creds) task) st0))
          = true)
    /\ (forall task_id,
          is_return (fst (app environ now (DELETE_task (Some creds) task_id) st0))
          = true).
Proof.
  intros Hverify users st0.
  assert (Hdep : forall A
            (handler : jwt.value -> Store -> exc HTTPException A * Store),
            Depends environ now (Some creds) handler st0 = handler s st0).
  { intros A handler. unfold Depends, security. rewrite Hverify. reflexivity. }
  split; [unfold passes_guard, security; rewrite Hverify; reflexivity|].
  split; [exact Hdep|].
  split; [|split; intros; cbn [app]; rewrite Hdep; reflexivity].
  cbn [app]. rewrite Hdep. reflexivity.
Qed.

End Guard.

(** ** Identifier assignment over a process lifetime *)

Lemma seqZ_increasing (n : nat) : forall m, StronglySorted Z.lt (seqZ m (Z.of_nat n)).
Proof.
  induction n as [|n IH]; intros m.
  - rewrite seqZ_nil by reflexivity. constructor.
  - rewrite seqZ_cons by lia.
    replace (Z.pred (Z.of_nat (S n))) with (Z.of_nat n) by lia.
    constructor; [apply IH|].
    apply Forall_seqZ. intros k Hk. lia.
Qed.

Lemma seqZ_step (m : Z) (n : nat) :
  m :: seqZ (m + 1) (Z.of_nat n) = seqZ m (Z.of_nat (S n)).
Proof.
  rewrite (seqZ_cons m (Z.of_nat (S n))) by lia.
  f_equal. f_equal; lia.
Qed.

Section Lifetime.

Variable environ : gmap string string.

(** What one request does to the task id counter: a task creation that
    passes the guard hands out the counter's value and moves it on by one;
    every other request leaves it alone and hands out nothing. *)
Lemma app_task_id now req st resp st1 :
  app environ now req st = (resp, st1) ->
  if guarded_task_creation environ (now, req)
  then task_id_counter st1 = task_id_counter st + 1
       /\ forall log, assigned_task_ids ((req, resp) :: log)
                      = task_id_counter st :: assigned_task_ids log
  else task_id_counter st1 = task_id_counter st
       /\ forall log, assigned_task_ids ((req, resp) :: log)
                      = assigned_task_ids log.
Proof.
  destruct req; cbn [app guarded_task_creation];
    unfold Depends, passes_guard, security, respond, create_task, get_tasks,
      get_task, update_task, delete_task, complete_task, create_user,
      get_users, login, get_current_user;
    repeat case_match; intros; simplify_eq/=; split; try reflexivity;
    try discriminate; try congruence.
Qed.

(** The same for the user id counter; here the request hands out an id
    exactly when it is a user creation that was not refused. *)
Lemma app_user_id now req st resp st1 :
  app environ now req st = (resp, st1) ->
  (user_id_counter st1 = user_id_counter st + 1
   /\ forall log, assigned_user_ids ((req, resp) :: log)
                  = user_id_counter st :: assigned_user_ids log)
  \/ (user_id_counter st1 = user_id_counter st
      /\ forall log, assigned_user_ids ((req, resp) :: log)
                     = assigned_user_ids log).
Proof.
  destruct req; cbn [app];
    unfold Depends, security, respond, create_task, get_tasks,
      get_task, update_task, delete_task, complete_task, create_user,
      get_users, login, get_current_user;
    repeat case_match; intros; simplify_eq/=;
    solve [ left; split; reflexivity | right; split; reflexivity ].
Qed.

Lemma serve_task_ids reqs : forall st,
  let n := length (List.filter (guarded_task_creation environ) reqs) in
  assigned_task_ids (fst (serve environ reqs st))
  = seqZ (task_id_counter st) (Z.of_nat n)
  /\ task_id_counter (snd (serve environ reqs st))
     = task_id_counter st + Z.of_nat n.
Proof.
  induction reqs as [|[now req] reqs IH]; intros st; cbn zeta.
  - cbn. rewrite seqZ_nil by reflexivity. split; [reflexivity | lia].
  - cbn [serve List.filter].
    destruct (app environ now req st) as [resp st1] eqn:Happ.
    specialize (IH st1). cbn zeta in IH.
    destruct (serve environ reqs st1) as [log st2].
    cbn [fst snd] in *. destruct IH as [IHids IHctr].
    apply app_task_id in Happ.
    destruct (guarded_task_creation environ (now, req));
      destruct Happ as [Hctr Hids]; rewrite Hids, IHids, IHctr, Hctr.
    + cbn [length]. split; [apply seqZ_step | lia].
    + split; reflexivity.
Qed.

Lemma serve_user_ids reqs : forall st,
  let ids := assigned_user_ids (fst (serve environ reqs st)) in
  ids = seqZ (user_id_counter st) (Z.of_nat (length ids))
  /\ user_id_counter (snd (serve environ reqs st))
     = user_id_counter st + Z.of_nat (length ids).
Proof.
  induction reqs as [|[now req] reqs IH]; intros st; cbn zeta.
  - cbn. rewrite seqZ_nil by reflexivity. split; [reflexivity | lia].
  - cbn [serve].
    destruct (app environ now req st) as [resp st1] eqn:Happ.
    specialize (IH st1). cbn zeta in IH.
    destruct (serve environ reqs st1) as [log st2].
    cbn [fst snd] in *. destruct IH as [IHids IHctr].
    apply app_user_id in Happ.
    destruct Happ as [[Hctr Hids] | [Hctr Hids]];
      rewrite Hctr in IHids, IHctr; rewrite Hids, IHctr.
    + cbn [length]. split; [|lia].
      rewrite <- seqZ_step. f_equal. exact IHids.
    + split; [exact IHids | reflexivity].
Qed.

(** C4: over any sequence of requests served from any store, the task ids
    handed out are as many as the task creations that reached the handler,
    strictly increasing and without repetition: they count up from the task
    id counter, which no other request (deletions included) moves.  The
    user ids handed out by the user creations that were not refused are
    strictly increasing and without repetition in the same way. *)
Theorem assigned_ids_increase reqs (st : Store) :
  let log := fst (serve environ reqs st) in
  let n := length (List.filter (guarded_task_creation environ) reqs) in
  length (assigned_task_ids log) = n
  /\ assigned_task_ids log = seqZ (task_id_counter st) (Z.of_nat n)
  /\ StronglySorted Z.lt (assigned_task_ids log)
  /\ NoDup (assigned_task_ids log)
  /\ assigned_user_ids log
     = seqZ (user_id_counter st) (Z.of_nat (length (assigned_user_ids log)))
  /\ StronglySorted Z.lt (assigned_user_ids log)
  /\ NoDup (assigned_user_ids log).
Proof.
  cbn zeta.
  destruct (serve_task_ids reqs st) as [Htasks _].
  destruct (serve_user_ids reqs st) as [Husers _]. cbn zeta in *.
  split; [rewrite Htasks, length_seqZ; lia|].
  split; [exact Htasks|].
  split; [rewrite Htasks; apply seqZ_increasing|].
  split; [rewrite Htasks; apply NoDup_seqZ|].
  split; [exact Husers|].
  split; rewrite Husers; [apply seqZ_increasing | apply NoDup_seqZ].
Qed.

End Lifetime.

(** ** Worked instances

    The service started with an empty environment, so with the fallback
    secret key, at clock reading 0. *)

(** C1, as first stated, asks for a non-empty subject.  The token that
    [login] issues for a user whose username is the empty string verifies,
    and its subject is the empty string: the guard in [verify_token] only
    rejects a missing subject. *)
Lemma empty_subject_verifies :
  let tok := create_access_token ∅ 0 (sub_claims "") in
  ~ ((exists s, verify_token ∅ 0 (Bearer tok) = Return s)
     <-> (signature_verifies (SECRET_KEY ∅) tok
          /\ unexpired 0 tok
          /\ carries_nonempty_subject tok)).
Proof.
  cbn zeta. intros [Hforward _].
  destruct Hforward as (_ & _ & (s & Hs & Hne)).
  - exists (jwt.VStr ""). rewrite verify_issued. vm_compute. reflexivity.
  - vm_compute in Hs. injection Hs as <-. apply Hne. reflexivity.
Qed.

Lemma verify_issue_roundtrip_witness :
  "alice" <> ""
  /\ verify_token ∅ 0 (Bearer (create_access_token ∅ 0 (sub_claims "alice")))
     = Return (jwt.VStr "alice").
Proof.
  split; [discriminate|].
  apply (verify_issue_roundtrip ∅ 0 "alice"). discriminate.
Defined.

Lemma lookup_failure_leaves_store_witness :
  let fields := TaskCreate.mk "B" None "high" in
  let st := {| tasks_db := [Task.mk 1 "A" None "medium" false 0];
               users_db := [];
               task_id_counter := 2;
               user_id_counter := 1 |} in
  (forall t, t ∈ tasks_db st -> Task.id t <> 2)
  /\ get_task 2 (jwt.VStr "alice") st = (Raise Task_not_found, st)
  /\ update_task 2 fields (jwt.VStr "alice") st = (Raise Task_not_found, st)
  /\ complete_task 2 (jwt.VStr "alice") st = (Raise Task_not_found, st).
Proof.
  cbn zeta.
  assert (Habsent : forall t,
    t ∈ [Task.mk 1 "A" None "medium" false 0] -> Task.id t <> 2).
  { intros t Ht. apply list_elem_of_singleton in Ht. subst t. discriminate. }
  split; [exact Habsent|].
  apply (lookup_failure_leaves_store 2 (TaskCreate.mk "B" None "high")
           (jwt.VStr "alice")
           {| tasks_db := [Task.mk 1 "A" None "medium" false 0];
              users_db := [];
              task_id_counter := 2;
              user_id_counter := 1 |}).
  exact Habsent.
Defined.

(** A token for a subject nobody registered, presented to a store without
    users. *)
Lemma guard_ignores_users_witness :
  let creds := Bearer (create_access_token ∅ 0 (sub_claims "ghost")) in
  verify_token ∅ 0 creds = Return (jwt.VStr "ghost")
  /\ users_db initial_store = []
  /\ app ∅ 0 (GET_tasks (Some creds)) initial_store
     = (Return (TaskListBody []), initial_store).
Proof.
  cbn zeta.
  assert (Hverify :
    verify_token ∅ 0 (Bearer (create_access_token ∅ 0 (sub_claims "ghost")))
    = Return (jwt.VStr "ghost")).
  { rewrite verify_issued. vm_compute. reflexivity. }
  split; [exact Hverify|]. split; [reflexivity|].
  exact (proj1 (proj2 (proj2
    (guard_ignores_users ∅ 0 _ _ initial_store Hverify [])))).
Defined.

(** The scenario of the service's description: create task "A", rename it
    to "B", complete it, delete it, look it up. *)
Example crud_scenario :
  let u := jwt.VStr "alice" in
  let '(r1, st1) := create_task 7 (TaskCreate.mk "A" None "medium") u initial_store in
  let '(r2, st2) := update_task 1 (TaskCreate.mk "B" None "medium") u st1 in
  let '(r3, st3) := complete_task 1 u st2 in
  let '(r4, st4) := delete_task 1 u st3 in
  let '(r5, st5) := get_task 1 u st4 in
  r1 = Return (Task.mk 1 "A" None "medium" false 7)
  /\ r2 = Return (Task.mk 1 "B" None "medium" false 7)
  /\ r3 = Return (Task.mk 1 "B" None "medium" true 7)
  /\ tasks_db st3 = [Task.mk 1 "B" None "medium" true 7]
  /\ r4 = Return "Task deleted successfully"
  /\ r5 = Raise Task_not_found
  /\ st5 = {| tasks_db := []; users_db := [];
              task_id_counter := 2; user_id_counter := 1 |}.
Proof. vm_compute. repeat split. Qed.

(** Sign up, log in with two different passwords, and use the token; a
    request without a header and a login for an unknown name are refused.
    A deleted task's id is not handed out again. *)
Example served_scenario :
  let alice := UserCreate.mk "alice" "alice@example.org" "secret" in
  let tok := create_access_token ∅ 10 (sub_claims "alice") in
  let auth := Some (Bearer tok) in
  let task := TaskCreate.mk "A" None "medium" in
  let reqs :=
    [ (1, POST_users alice);
      (2, POST_users alice);
      (10, POST_auth_login "alice" "anything");
      (10, POST_auth_login "alice" "something else");
      (11, POST_auth_login "bob" "secret");
      (12, GET_tasks None);
      (13, POST_tasks auth task);
      (14, DELETE_task auth 1);
      (15, POST_tasks auth task);
      (10 + timedelta 31, POST_tasks auth task) ] in
  List.map snd (fst (serve ∅ reqs initial_store))
  = [ Return (UserBody (User.mk 1 "alice" "alice@example.org" 1));
      Raise (mkHTTPException 400 "Username already exists");
      Return (TokenBody (Token.mk tok "bearer"));
      Return (TokenBody (Token.mk tok "bearer"));
      Raise (mkHTTPException 401 "Invalid credentials");
      Raise (mkHTTPException 403 "Not authenticated");
      Return (TaskBody (Task.mk 1 "A" None "medium" false 13));
      Return (MessageBody "Task deleted successfully");
      Return (TaskBody (Task.mk 2 "A" None "medium" false 15));
      Raise Invalid_token ].
Proof. vm_compute. reflexivity. Qed.

(** ** Reading and rewriting one task *)

Section Mutation.

Context {A : Type} (p : A -> bool) (f : A -> A).
Hypothesis keeps_match : forall x, p (f x) = p x.

Lemma next_mutate_first (l : list A) :
  next p (mutate_first p f l) = option_map f (next p l).
Proof.
  unfold next. induction l as [|x l IH]; [reflexivity|].
  cbn [mutate_first List.find]. destruct (p x) eqn:Hx.
  - cbn [List.find]. rewrite keeps_match, Hx. reflexivity.
  - cbn [List.find]. rewrite Hx. exact IH.
Qed.

Lemma mutate_first_again (g : A -> A) (l : list A) :
  mutate_first p g (mutate_first p f l)
  = mutate_first p (fun x => g (f x)) l.
Proof.
  induction l as [|x l IH]; [reflexivity|].
  cbn [mutate_first]. destruct (p x) eqn:Hx.
  - cbn [mutate_first]. rewrite keeps_match, Hx. reflexivity.
  - cbn [mutate_first]. rewrite Hx, IH. reflexivity.
Qed.

End Mutation.

Lemma mutate_first_map {A B} (p : A -> bool) (f : A -> A) (g : A -> B)
    (l : list A) :
  (forall x, g (f x) = g x) ->
  List.map g (mutate_first p f l) = List.map g l.
Proof.
  intros Hg. induction l as [|x l IH]; [reflexivity|].
  cbn [mutate_first]. destruct (p x); cbn [List.map]; [rewrite Hg | rewrite IH];
    reflexivity.
Qed.

Lemma next_found {A} (p : A -> bool) (l : list A) (x : A) :
  next p l = Some x -> x ∈ l /\ p x = true.
Proof.
  intros H. apply List.find_some in H as [Hin Hp].
  split; [apply list_elem_of_In, Hin | exact Hp].
Qed.

Lemma next_missing {A} (p : A -> bool) (l : list A) :
  next p l = None -> forall x, x ∈ l -> p x = false.
Proof.
  intros H x Hx. apply (List.find_none p l H x), list_elem_of_In, Hx.
Qed.

(** X1: [get_task] never changes the store.  It returns a stored task that
    has the requested id (the first one in insertion order), and raises 404
    "Task not found" only when no stored task has that id. *)
Theorem get_task_reads task_id username (st : Store) :
  snd (get_task task_id username st) = st
  /\ match fst (get_task task_id username st) with
     | Return task =>
         Task.id task = task_id
         /\ exists before after,
              tasks_db st = before ++ task :: after
              /\ Forall (fun t => Task.id t <> task_id) before
     | Raise e =>
         e = Task_not_found
         /\ forall t, t ∈ tasks_db st -> Task.id t <> task_id
     end.
Proof.
  unfold get_task.
  destruct (next (fun t => Task.id t =? task_id) (tasks_db st)) as [task|] eqn:Hnext;
    cbn [fst snd]; (split; [reflexivity|]).
  - destruct (next_first_match _ (fun t => t) _ _ Hnext)
      as (before & after & Hsplit & Hbefore & Htask & _).
    split; [apply Z.eqb_eq, Htask|].
    exists before, after. split; [exact Hsplit|].
    eapply Forall_impl; [exact Hbefore|]. intros a Ha. apply Z.eqb_neq, Ha.
  - split; [reflexivity|]. intros t Ht.
    apply Z.eqb_neq. exact (next_missing _ _ Hnext t Ht).
Qed.

(** X2: when a task with the requested id is stored, [complete_task]
    sets the completed flag of that task (the first with the id) and
    returns it; its other fields, every other task, the users and both
    counters stay as they were. *)
Theorem complete_task_frame task_id username (st : Store) :
  (exists t, t ∈ tasks_db st /\ Task.id t = task_id) ->
  exists before task after done st',
    tasks_db st = before ++ task :: after
    /\ Forall (fun t => Task.id t <> task_id) before
    /\ Task.id task = task_id
    /\ complete_task task_id username st = (Return done, st')
    /\ tasks_db st' = before ++ done :: after
    /\ users_db st' = users_db st
    /\ task_id_counter st' = task_id_counter st
    /\ user_id_counter st' = user_id_counter st
    /\ Task.completed done = true
    /\ Task.id done = Task.id task
    /\ Task.title done = Task.title task
    /\ Task.description done = Task.description task
    /\ Task.priority done = Task.priority task
    /\ Task.created_at done = Task.created_at task.
Proof.
  intros (t & Hin & Hid).
  destruct (next_present (fun t => Task.id t =? task_id) (tasks_db st))
    as [task Hnext].
  { exists t. split; [exact Hin | apply Z.eqb_eq, Hid]. }
  destruct (next_first_match _ assign_completed _ _ Hnext)
    as (before & after & Hsplit & Hbefore & Htask & Hmut).
  exists before, task, after, (assign_completed task).
  eexists. unfold complete_task. rewrite Hnext, Hmut.
  split; [exact Hsplit|].
  split.
  { eapply Forall_impl; [exact Hbefore|]. intros a Ha. apply Z.eqb_neq, Ha. }
  split; [apply Z.eqb_eq, Htask|].
  split; [reflexivity|].
  repeat split.
Qed.

(** X3: completing is idempotent.  Completing the same id a second time
    gives the same answer as the first time (the completed task, or 404)
    and leaves the store as the first call left it. *)
Theorem complete_task_twice task_id username username' (st : Store) :
  complete_task task_id username' (snd (complete_task task_id username st))
  = complete_task task_id username st.
Proof.
  unfold complete_task.
  destruct (next (fun t => Task.id t =? task_id) (tasks_db st)) as [task|] eqn:Hnext;
    cbn [snd]; [|rewrite Hnext; reflexivity].
  cbn [tasks_db set_tasks_db].
  rewrite next_mutate_first by reflexivity. rewrite Hnext. cbn [option_map].
  unfold set_tasks_db. cbn [tasks_db users_db task_id_counter user_id_counter].
  rewrite mutate_first_again by reflexivity. reflexivity.
Qed.

(** X4: a write can be read back.  After [update_task] or [complete_task]
    for an id, [get_task] for that id returns exactly what the write
    returned (the rewritten task, or 404 when no task has the id) and the
    store stays as the write left it. *)
Theorem get_task_after_write task_id fields username username' (st : Store) :
  get_task task_id username' (snd (update_task task_id fields username st))
  = update_task task_id fields username st
  /\ get_task task_id username' (snd (complete_task task_id username st))
     = complete_task task_id username st.
Proof.
  unfold get_task, update_task, complete_task.
  destruct (next (fun t => Task.id t =? task_id) (tasks_db st)) as [task|] eqn:Hnext;
    cbn [snd]; [|rewrite Hnext; split; reflexivity].
  cbn [tasks_db set_tasks_db].
  rewrite !next_mutate_first by reflexivity. rewrite Hnext. cbn [option_map].
  split; reflexivity.
Qed.

(** X5: the last update wins.  Two updates of the same id in a row leave
    the store, and return the task, that the second update alone would. *)
Theorem update_task_overwrites task_id fields1 fields2 username username'
    (st : Store) :
  update_task task_id fields2 username'
    (snd (update_task task_id fields1 username st))
  = update_task task_id fields2 username' st.
Proof.
  unfold update_task.
  destruct (next (fun t => Task.id t =? task_id) (tasks_db st)) as [task|] eqn:Hnext;
    cbn [snd]; [|rewrite Hnext; reflexivity].
  cbn [tasks_db set_tasks_db].
  rewrite next_mutate_first by reflexivity. rewrite Hnext. cbn [option_map].
  unfold set_tasks_db. cbn [tasks_db users_db task_id_counter user_id_counter].
  rewrite mutate_first_again by reflexivity. reflexivity.
Qed.

(** ** What a request can and cannot do *)

Section Routes.

Variable environ : gmap string string.

Lemma verify_token_raises now creds e :
  verify_token environ now creds = Raise e -> e = Invalid_token.
Proof.
  intros H. pose proof (verify_token_cases environ now creds) as Hcases.
  rewrite H in Hcases. apply Hcases.
Qed.

(** The two ways through the guard: it answers itself and the handler never
    runs, or it hands the handler the subject of the token. *)
Lemma Depends_cases {A} now auth
    (handler : jwt.value -> Store -> exc HTTPException A * Store) st :
  (passes_guard environ now auth = false
   /\ Depends environ now auth handler st
      = (Raise (match auth with
                | None => mkHTTPException 403 "Not authenticated"
                | Some _ => Invalid_token
                end), st))
  \/ (exists creds s,
        auth = Some creds
        /\ verify_token environ now creds = Return s
        /\ passes_guard environ now auth = true
        /\ Depends environ now auth handler st = handler s st).
Proof.
  unfold Depends, passes_guard, security.
  destruct auth as [creds|]; [|left; split; reflexivity].
  destruct (verify_token environ now creds) as [s|e] eqn:Hverify.
  - right. exists creds, s. repeat split. exact Hverify.
  - left. apply verify_token_raises in Hverify. subst e. split; reflexivity.
Qed.


Ltac run_handlers :=
  unfold respond, create_task, get_tasks, get_task, update_task, delete_task,
    complete_task, create_user, get_users, login, get_current_user;
  repeat case_match; simplify_eq/=.

(** X7: an error response never comes with a changed store.  Whatever the
    request, when the answer is an exception the store is the one the
    request found, and the status is one of 400, 401, 403 and 404. *)
Theorem errors_leave_store now req (st : Store) :
  match fst (app environ now req st) with
  | Return _ => True
  | Raise e =>
      snd (app environ now req st) = st
      /\ (status_code e = 400 \/ status_code e = 401
          \/ status_code e = 403 \/ status_code e = 404)
  end.
Proof.
  destruct req; cbn [app];
    try match goal with
    | |- context [Depends _ _ _ ?h _] =>
        destruct (Depends_cases now authorization h st)
          as [[_ ->] | (creds & s & _ & _ & _ & ->)];
        [ cbn; split; [reflexivity|]; destruct authorization; cbn; auto | ]
    end;
    run_handlers; auto 6.
Qed.

(** X8: each route writes only what is its own.  Only user creation
    changes the user list or the user id counter; only task creation
    changes the task id counter; updating and completing keep the stored
    task ids and their order; and the reading routes and login leave the
    whole store as it is. *)
Theorem routes_write_their_own now req (st : Store) :
  let st1 := snd (app environ now req st) in
  match req with
  | POST_users _ =>
      tasks_db st1 = tasks_db st /\ task_id_counter st1 = task_id_counter st
  | POST_tasks _ _ =>
      users_db st1 = users_db st /\ user_id_counter st1 = user_id_counter st
  | DELETE_task _ _ =>
      users_db st1 = users_db st /\ user_id_counter st1 = user_id_counter st
      /\ task_id_counter st1 = task_id_counter st
  | PUT_task _ _ _ | PATCH_task_complete _ _ =>
      users_db st1 = users_db st /\ user_id_counter st1 = user_id_counter st
      /\ task_id_counter st1 = task_id_counter st
      /\ task_ids st1 = task_ids st
  | GET_tasks _ | GET_task _ _ | GET_users | POST_auth_login _ _
  | GET_auth_me _ => st1 = st
  end.
Proof.
  cbn zeta. destruct req; cbn [app];
    try match goal with
    | |- context [Depends _ _ _ ?h _] =>
        destruct (Depends_cases now authorization h st)
          as [[_ ->] | (creds & s & _ & _ & _ & ->)];
        [ cbn; repeat split | ]
    end;
    run_handlers; repeat split; unfold task_ids; cbn [tasks_db];
    apply mutate_first_map; reflexivity.
Qed.

End Routes.

(** ** The stores the service can reach *)

Lemma increasing_snoc (c : Z) (ids : list Z) :
  StronglySorted Z.lt ids -> Forall (fun i => i < c) ids ->
  StronglySorted Z.lt (ids ++ [c]).
Proof.
  induction ids as [|i ids IH]; intros Hsorted Hbelow; cbn [List.app].
  - repeat constructor.
  - apply StronglySorted_inv in Hsorted as [Hrest Hfirst].
    apply Forall_cons in Hbelow as [Hi Hbelow].
    constructor; [apply IH; assumption|].
    apply Forall_app. split; [exact Hfirst|]. repeat constructor. exact Hi.
Qed.

Lemma Forall_map_comprehension {A B} (P : B -> Prop) (g : A -> B)
    (q : A -> bool) (l : list A) :
  Forall P (List.map g l) -> Forall P (List.map g (List.filter q l)).
Proof.
  induction l as [|x l IH]; intros H; [constructor|].
  cbn [List.map] in H. apply Forall_cons in H as [Hx Hl].
  cbn [List.filter]. destruct (q x); cbn [List.map]; auto.
Qed.

Lemma increasing_comprehension {A} (g : A -> Z) (q : A -> bool) (l : list A) :
  StronglySorted Z.lt (List.map g l) ->
  StronglySorted Z.lt (List.map g (List.filter q l)).
Proof.
  induction l as [|x l IH]; intros H; [constructor|].
  cbn [List.map] in H. apply StronglySorted_inv in H as [Hl Hx].
  cbn [List.filter]. destruct (q x); cbn [List.map]; auto.
  constructor; [auto|]. apply Forall_map_comprehension, Hx.
Qed.

Lemma increasing_NoDup (ids : list Z) : StronglySorted Z.lt ids -> NoDup ids.
Proof.
  induction 1 as [|i ids Hsorted IH Hfirst]; constructor; [|exact IH].
  intros Hin. rewrite Forall_forall in Hfirst. specialize (Hfirst i Hin). lia.
Qed.

(** A strictly increasing list of integers from [[a, c)] has at most
    [c - a] elements. *)
Lemma increasing_length (ids : list Z) : forall a c,
  a <= c -> StronglySorted Z.lt ids -> Forall (fun i => a <= i < c) ids ->
  len ids <= c - a.
Proof.
  unfold len. induction ids as [|i ids IH]; intros a c Hac Hsorted Hrange.
  - cbn. lia.
  - apply StronglySorted_inv in Hsorted as [Hrest Hfirst].
    apply Forall_cons in Hrange as [Hi Hrange].
    assert (Z.of_nat (length ids) <= c - (i + 1)) as Hlen.
    { apply IH; [lia | exact Hrest |].
      rewrite Forall_forall in *. intros j Hj.
      specialize (Hfirst j Hj). specialize (Hrange j Hj). lia. }
    cbn [length]. lia.
Qed.

Lemma not_taken_not_listed (name : string) (users : list User.t) :
  existsb (fun u => String.eqb (User.username u) name) users = false ->
  name ∉ List.map User.username users.
Proof.
  intros Hfree Hin. apply list_elem_of_In, List.in_map_iff in Hin
    as (u & Hname & Hu).
  assert (existsb (fun u => String.eqb (User.username u) name) users = true)
    as Htaken; [|congruence].
  apply List.existsb_exists. exists u. split; [exact Hu|].
  apply String.eqb_eq, Hname.
Qed.

Lemma initial_store_consistent : consistent initial_store.
Proof.
  unfold consistent, task_ids, user_ids, usernames, len. cbn.
  repeat split; try constructor; lia.
Qed.

Lemma create_task_consistent now task username st :
  consistent st -> consistent (snd (create_task now task username st)).
Proof.
  unfold consistent, task_ids, user_ids, usernames. cbn.
  intros (Hc & Hsorted & Hrange & Hu).
  rewrite List.map_app. cbn [List.map Task.id].
  split; [lia|]. split.
  - apply increasing_snoc; [exact Hsorted|].
    eapply Forall_impl; [exact Hrange|]. cbn. intros; lia.
  - split; [|exact Hu]. apply Forall_app. split.
    + eapply Forall_impl; [exact Hrange|]. cbn. intros; lia.
    + repeat constructor; lia.
Qed.

Lemma update_task_consistent task_id fields username st :
  consistent st -> consistent (snd (update_task task_id fields username st)).
Proof.
  unfold update_task. destruct (next _ _); [|exact (fun H => H)].
  unfold consistent, task_ids, user_ids, usernames. cbn.
  rewrite mutate_first_map by reflexivity. exact (fun H => H).
Qed.

Lemma complete_task_consistent task_id username st :
  consistent st -> consistent (snd (complete_task task_id username st)).
Proof.
  unfold complete_task. destruct (next _ _); [|exact (fun H => H)].
  unfold consistent, task_ids, user_ids, usernames. cbn.
  rewrite mutate_first_map by reflexivity. exact (fun H => H).
Qed.

Lemma delete_task_consistent task_id username st :
  consistent st -> consistent (snd (delete_task task_id username st)).
Proof.
  unfold consistent, task_ids, user_ids, usernames. cbn.
  intros (Hc & Hsorted & Hrange & Hu).
  split; [exact Hc|]. split; [apply increasing_comprehension, Hsorted|].
  split; [apply Forall_map_comprehension, Hrange | exact Hu].
Qed.

Lemma create_user_consistent now user st :
  consistent st -> consistent (snd (create_user now user st)).
Proof.
  unfold create_user. destruct (existsb _ _) eqn:Hfree; [exact (fun H => H)|].
  unfold consistent, task_ids, user_ids, usernames, len. cbn.
  intros (Hc & Hsorted & Hrange & Hids & Hctr & Hnames).
  rewrite !List.map_app, length_app. cbn [List.map length User.id User.username].
  do 3 (split; [assumption|]).
  replace (length (users_db st) + 1)%nat with (S (length (users_db st))) by lia.
  split; [|split].
  - rewrite seqZ_S, Hids, Hctr. reflexivity.
  - lia.
  - apply NoDup_app. split; [exact Hnames|]. split; [|repeat constructor].
    + intros name Hname Hnew. apply list_elem_of_singleton in Hnew. subst name.
      exact (not_taken_not_listed _ _ Hfree Hname).
    + apply not_elem_of_nil.
Qed.

Section Reachable.

Variable environ : gmap string string.

Lemma app_consistent now req st :
  consistent st -> consistent (snd (app environ now req st)).
Proof.
  intros Hst.
  destruct req; cbn [app];
    try match goal with
    | |- context [Depends _ _ _ ?h _] =>
        destruct (Depends_cases environ now authorization h st)
          as [[_ ->] | (creds & s & _ & _ & _ & ->)];
        [ exact Hst | ]
    end;
    match goal with
    | |- consistent (snd (respond _ ?r)) =>
        replace (snd (respond _ r)) with (snd r)
          by (unfold respond; destruct r as [[?|?] ?]; reflexivity)
    end.
  - apply create_task_consistent, Hst.
  - exact Hst.
  - unfold get_task. destruct (next _ _); exact Hst.
  - apply update_task_consistent, Hst.
  - apply delete_task_consistent, Hst.
  - apply complete_task_consistent, Hst.
  - apply create_user_consistent, Hst.
  - exact Hst.
  - unfold login. destruct (next _ _); exact Hst.
  - unfold get_current_user. destruct (next _ _); exact Hst.
Qed.

Lemma serve_consistent reqs : forall st,
  consistent st -> consistent (snd (serve environ reqs st)).
Proof.
  induction reqs as [|[now req] reqs IH]; intros st Hst; [exact Hst|].
  cbn [serve].
  pose proof (app_consistent now req st Hst) as Hstep.
  destruct (app environ now req st) as [resp st1].
  specialize (IH st1 Hstep).
  destruct (serve environ reqs st1) as [log st2]. exact IH.
Qed.

(** X9: in every store the service reaches from its start, the stored
    tasks carry strictly increasing ids in insertion order, so no two
    stored tasks share an id, and every stored id is at least 1 and below
    the task id counter. *)
Theorem reachable_task_ids reqs :
  let st := snd (serve environ reqs initial_store) in
  StronglySorted Z.lt (task_ids st)
  /\ NoDup (task_ids st)
  /\ Forall (fun i => 1 <= i < task_id_counter st) (task_ids st).
Proof.
  cbn zeta.
  destruct (serve_consistent reqs _ initial_store_consistent)
    as (_ & Hsorted & Hrange & _).
  split; [exact Hsorted|]. split; [apply increasing_NoDup, Hsorted | exact Hrange].
Qed.

(** X10: in every store the service reaches from its start, the stored
    users carry the ids 1, 2, ..., n in insertion order, the user id
    counter is n + 1, and no two stored users share a username. *)
Theorem reachable_users reqs :
  let st := snd (serve environ reqs initial_store) in
  user_ids st = seqZ 1 (len (users_db st))
  /\ user_id_counter st = 1 + len (users_db st)
  /\ NoDup (usernames st).
Proof.
  cbn zeta.
  destruct (serve_consistent reqs _ initial_store_consistent)
    as (_ & _ & _ & Hids & Hctr & Hnames).
  auto.
Qed.

End Reachable.

Lemma next_app_absent {A} (p : A -> bool) (l l' : list A) :
  (forall x, x ∈ l -> p x = false) -> next p (l ++ l') = next p l'.
Proof.
  unfold next. induction l as [|x l IH]; intros Hall; [reflexivity|].
  cbn [List.app List.find]. rewrite (Hall x) by apply list_elem_of_here.
  apply IH. intros y Hy. apply Hall, list_elem_of_further, Hy.
Qed.

Lemma comprehension_keeps_all {A} (q : A -> bool) (l : list A) :
  (forall x, x ∈ l -> q x = true) -> List.filter q l = l.
Proof.
  induction l as [|x l IH]; intros Hall; [reflexivity|].
  cbn [List.filter]. rewrite (Hall x) by apply list_elem_of_here.
  f_equal. apply IH. intros y Hy. apply Hall, list_elem_of_further, Hy.
Qed.

(** Where ids strictly increase, the comprehension of [delete_task] drops
    one element when the id is there and none when it is not. *)
Lemma comprehension_drops_one (task_id : Z) (l : list Task.t) :
  StronglySorted Z.lt (List.map Task.id l) ->
  len (List.filter (fun t => negb (Task.id t =? task_id)) l)
  = len l - (if bool_decide (task_id ∈ List.map Task.id l) then 1 else 0).
Proof.
  unfold len. induction l as [|t l IH]; intros Hsorted; [reflexivity|].
  cbn [List.map] in Hsorted. apply StronglySorted_inv in Hsorted as [Hrest Hfirst].
  cbn [List.filter List.map]. destruct (Z.eqb_spec (Task.id t) task_id) as [Heq|Hne];
    cbn [negb].
  - rewrite bool_decide_eq_true_2 by (rewrite Heq; apply list_elem_of_here).
    rewrite comprehension_keeps_all; [cbn [length]; lia|].
    intros x Hx. apply negb_true_iff, Z.eqb_neq.
    rewrite Forall_forall in Hfirst.
    assert (Task.id t < Task.id x); [|lia].
    apply Hfirst, list_elem_of_In, List.in_map, list_elem_of_In, Hx.
  - cbn [length]. specialize (IH Hrest).
    destruct (bool_decide (task_id ∈ List.map Task.id l)) eqn:Hin.
    + apply bool_decide_eq_true in Hin.
      rewrite bool_decide_eq_true_2 by (apply list_elem_of_further, Hin).
      assert (0 < length l)%nat.
      { destruct l; [apply elem_of_nil in Hin; destruct Hin | cbn; lia]. }
      lia.
    + apply bool_decide_eq_false in Hin.
      rewrite bool_decide_eq_false_2; [lia|].
      intros Hcons. apply elem_of_cons in Hcons as [Hhead | Htail];
        [congruence | exact (Hin Htail)].
Qed.

Lemma mutate_first_length {A} (p : A -> bool) (f : A -> A) (l : list A) :
  length (mutate_first p f l) = length l.
Proof.
  induction l as [|x l IH]; [reflexivity|].
  cbn [mutate_first]. destruct (p x); cbn [length]; [|rewrite IH]; reflexivity.
Qed.

(** Completing the first match adds one to the number of completed tasks
    unless that task was completed already. *)
Lemma completed_after_mutation (p : Task.t -> bool) (l : list Task.t) :
  len (List.filter (fun t => Task.completed t) (mutate_first p assign_completed l))
  = len (List.filter (fun t => Task.completed t) l)
    + match next p l with
      | Some task => if Task.completed task then 0 else 1
      | None => 0
      end.
Proof.
  unfold len, next. induction l as [|t l IH]; [reflexivity|].
  cbn [mutate_first List.find]. destruct (p t) eqn:Hp.
  - cbn [List.filter assign_completed Task.completed].
    destruct (Task.completed t); cbn [length]; lia.
  - cbn [List.filter]. destruct (Task.completed t); cbn [length]; lia.
Qed.

Section ReachableUse.

Variable environ : gmap string string.

(** X11: in every store the service reaches from its start, a task that
    was just created is the one [get_task] finds under its id: asking for
    the id that [create_task] handed out returns the new task. *)
Theorem created_task_found reqs now task username username' :
  let st := snd (serve environ reqs initial_store) in
  get_task (task_id_counter st) username'
    (snd (create_task now task username st))
  = create_task now task username st.
Proof.
  cbn zeta.
  destruct (serve_consistent environ reqs _ initial_store_consistent)
    as (_ & _ & Hrange & _).
  set (st := snd (serve environ reqs initial_store)) in *.
  unfold get_task, create_task. cbn [snd tasks_db set_tasks_db
    set_task_id_counter task_id_counter].
  rewrite next_app_absent.
  - unfold next. cbn [List.find Task.id]. rewrite Z.eqb_refl. reflexivity.
  - intros t Ht. apply Z.eqb_neq. rewrite Forall_forall in Hrange.
    assert (Task.id t < task_id_counter st); [|lia].
    apply Hrange. unfold task_ids.
    apply list_elem_of_In, List.in_map, list_elem_of_In, Ht.
Qed.

(** X12: in every store the service reaches from its start, [delete_task]
    removes exactly one task when a task with the id is stored, and none
    otherwise. *)
Theorem delete_removes_one reqs task_id username :
  let st := snd (serve environ reqs initial_store) in
  len (tasks_db (snd (delete_task task_id username st)))
  = len (tasks_db st)
    - (if bool_decide (task_id ∈ task_ids st) then 1 else 0).
Proof.
  cbn zeta.
  destruct (serve_consistent environ reqs _ initial_store_consistent)
    as (_ & Hsorted & _).
  cbn [delete_task snd tasks_db set_tasks_db].
  apply comprehension_drops_one, Hsorted.
Qed.

(** X13: in every store the service reaches from its start, the analytics
    are consistent with the counters: completed tasks are between 0 and the
    total, the user total is the number of user ids handed out, and the
    task total is at most the number of task ids handed out.  Reading the
    analytics leaves the store as it is. *)
Theorem analytics_counts reqs now :
  let st := snd (serve environ reqs initial_store) in
  exists a,
    get_analytics now st = (Return a, st)
    /\ 0 <= Analytics.completed_tasks a <= Analytics.total_tasks a
    /\ Analytics.total_users a = user_id_counter st - 1
    /\ Analytics.total_tasks a <= task_id_counter st - 1.
Proof.
  cbn zeta.
  destruct (serve_consistent environ reqs _ initial_store_consistent)
    as (Hc & Hsorted & Hrange & _ & Hctr & _).
  eexists. split; [reflexivity|]. cbn [Analytics.completed_tasks
    Analytics.total_tasks Analytics.total_users].
  split; [|split].
  - unfold len. split; [lia|].
    apply Nat2Z.inj_le, List.filter_length_le.
  - lia.
  - replace (len (tasks_db _)) with (len (task_ids (snd (serve environ reqs initial_store))))
      by (unfold len, task_ids; rewrite List.length_map; reflexivity).
    apply increasing_length; assumption.
Qed.

End ReachableUse.

(** X14: completing a task moves the analytics by at most one.  The task
    and user totals stay, and the number of completed tasks grows by one
    when the task found under the id was not completed yet, and stays when
    it was or when no task has the id. *)
Theorem completing_counts task_id username now now' (st : Store) :
  let st1 := snd (complete_task task_id username st) in
  exists a a1,
    get_analytics now st = (Return a, st)
    /\ get_analytics now' st1 = (Return a1, st1)
    /\ Analytics.total_tasks a1 = Analytics.total_tasks a
    /\ Analytics.total_users a1 = Analytics.total_users a
    /\ Analytics.completed_tasks a1
       = Analytics.completed_tasks a
         + match fst (get_task task_id username st) with
           | Return task => if Task.completed task then 0 else 1
           | Raise _ => 0
           end.
Proof.
  cbn zeta. do 2 eexists. split; [reflexivity|]. split; [reflexivity|].
  cbn [Analytics.completed_tasks Analytics.total_tasks Analytics.total_users].
  unfold complete_task, get_task.
  pose proof (completed_after_mutation (fun t => Task.id t =? task_id)
                (tasks_db st)) as Hcount.
  destruct (next (fun t => Task.id t =? task_id) (tasks_db st)) as [task|];
    cbn [fst snd tasks_db users_db set_tasks_db].
  - split; [unfold len; rewrite mutate_first_length; reflexivity|].
    split; [reflexivity | exact Hcount].
  - repeat split. lia.
Qed.

(** ** Users, login and the current user *)

(** X15: a username can be taken only once.  Whatever a [create_user] call
    did, a following call with the same username (and any email and
    password) raises 400 "Username already exists" and changes nothing. *)
Theorem create_user_again_conflicts now now' user email' password'
    (st : Store) :
  let st1 := snd (create_user now user st) in
  create_user now' (UserCreate.mk (UserCreate.username user) email' password') st1
  = (Raise (mkHTTPException 400 "Username already exists"), st1).
Proof.
  cbn zeta. unfold create_user at 2 3.
  destruct (existsb _ (users_db st)) eqn:Htaken; cbn [snd].
  - unfold create_user. cbn [UserCreate.username]. rewrite Htaken. reflexivity.
  - unfold create_user. cbn [UserCreate.username users_db set_users_db
      set_user_id_counter].
    rewrite List.existsb_app. cbn [existsb User.username].
    rewrite String.eqb_refl, orb_true_r. reflexivity.
Qed.

Section CurrentUser.

Variable environ : gmap string string.

(** X16: sign-up, login and the current-user route fit together.  When the
    username is free, [create_user] succeeds, [login] with that username
    (and any password) returns a bearer token, and presenting the token to
    the current-user route before it expires returns the user that was
    created. *)
Theorem signup_login_me now user t password t' (st : Store) :
  (forall u, u ∈ users_db st -> User.username u <> UserCreate.username user) ->
  t' < t + timedelta ACCESS_TOKEN_EXPIRE_MINUTES ->
  exists new_user st1 tok,
    create_user now user st = (Return new_user, st1)
    /\ login environ t (UserCreate.username user) password st1
       = (Return (Token.mk tok "bearer"), st1)
    /\ app environ t' (GET_auth_me (Some (Bearer tok))) st1
       = (Return (UserBody new_user), st1).
Proof.
  intros Hfree Hlive.
  assert (Hnone : forall u, u ∈ users_db st ->
            String.eqb (User.username u) (UserCreate.username user) = false).
  { intros u Hu. apply String.eqb_neq, Hfree, Hu. }
  do 3 eexists. split; [|split].
  - unfold create_user.
    destruct (existsb _ (users_db st)) eqn:Htaken; [|reflexivity].
    apply List.existsb_exists in Htaken as (u & Hin & Hu).
    rewrite Hnone in Hu by (apply list_elem_of_In, Hin). discriminate.
  - unfold login. cbn [users_db set_users_db set_user_id_counter].
    rewrite next_app_absent by exact Hnone.
    unfold next. cbn [List.find User.username]. rewrite String.eqb_refl.
    reflexivity.
  - cbn [app]. unfold Depends, security. fold (sub_claims (UserCreate.username user)).
    rewrite verify_issued.
    unfold timedelta, ACCESS_TOKEN_EXPIRE_MINUTES in Hlive.
    replace (t + 30 * 60 <=? t') with false by (symmetry; apply Z.leb_gt; lia).
    unfold sub_claims. rewrite lookup_singleton_eq.
    unfold get_current_user. cbn [users_db set_users_db set_user_id_counter].
    rewrite next_app_absent by exact Hnone.
    unfold next. cbn [List.find username_is User.username].
    rewrite String.eqb_refl. reflexivity.
Qed.

(** X17: the current-user route looks the subject of the token up in the
    user list.  With a token that verifies to the name [name], it returns a
    stored user of that username, or raises 404 "User not found" when no
    stored user has it; the store stays as it is either way. *)
Theorem current_user_lookup now creds name (st : Store) :
  verify_token environ now creds = Return (jwt.VStr name) ->
  snd (app environ now (GET_auth_me (Some creds)) st) = st
  /\ match fst (app environ now (GET_auth_me (Some creds)) st) with
     | Return (UserBody user) =>
         user ∈ users_db st /\ User.username user = name
     | Return _ => False
     | Raise e =>
         e = mkHTTPException 404 "User not found"
         /\ forall u, u ∈ users_db st -> User.username u <> name
     end.
Proof.
  intros Hverify. cbn [app]. unfold Depends, security. rewrite Hverify.
  unfold get_current_user.
  destruct (next (username_is (jwt.VStr name)) (users_db st)) as [user|] eqn:Hnext;
    cbn [respond fst snd]; (split; [reflexivity|]).
  - apply next_found in Hnext as [Hin Hname]. split; [exact Hin|].
    apply String.eqb_eq, Hname.
  - split; [reflexivity|]. intros u Hu.
    apply String.eqb_neq. exact (next_missing _ _ Hnext u Hu).
Qed.


(** X19: what [create_access_token] writes into a token.  The token is
    signed with the process-wide secret key; its [exp] claim is the
    issuance time plus 30 minutes, replacing an [exp] the caller supplied;
    every other claim is the caller's. *)
Theorem issued_claims t0 data name :
  let tok := create_access_token environ t0 data in
  signature_verifies (SECRET_KEY environ) tok
  /\ claim name tok
     = if String.eqb name "exp"
       then Some (jwt.VNum (t0 + timedelta ACCESS_TOKEN_EXPIRE_MINUTES))
       else data !! name.
Proof.
  cbn zeta. unfold create_access_token, jwt.encode, claim. cbn [claims_of].
  split; [eexists; reflexivity|].
  destruct (String.eqb_spec name "exp") as [-> | Hne].
  - apply lookup_insert_eq.
  - apply lookup_insert_ne. congruence.
Qed.

End CurrentUser.


(** X21: what the environment route says about the secret key.  It
    reports [secret_key_set] exactly when the SECRET_KEY variable is set to
    a non-empty text, and then that text is the signing key.  An unset
    variable makes the built-in fallback the signing key; a variable set to
    the empty text is reported as not set, yet the empty text is the
    signing key.  The route leaves the store as it is. *)
Theorem secret_key_reported environ (st : Store) :
  exists info,
    get_environment environ st = (Return info, st)
    /\ (EnvironmentInfo.secret_key_set info = true
        <-> exists k, environ !! "SECRET_KEY" = Some k /\ k <> "")
    /\ (EnvironmentInfo.secret_key_set info = true
        -> environ !! "SECRET_KEY" = Some (SECRET_KEY environ))
    /\ (environ !! "SECRET_KEY" = None
        -> SECRET_KEY environ = "your-secret-key-change-in-production")
    /\ (environ !! "SECRET_KEY" = Some ""
        -> EnvironmentInfo.secret_key_set info = false
           /\ SECRET_KEY environ = "").
Proof.
  eexists. split; [reflexivity|]. cbn [EnvironmentInfo.secret_key_set].
  unfold SECRET_KEY, getenv, truthy.
  destruct (environ !! "SECRET_KEY") as [k|]; cbn [default].
  - destruct (String.eqb_spec k "") as [-> | Hne]; cbn [negb].
    + split; [split; [discriminate | intros (k & [= <-] & Hk); congruence]|].
      split; [discriminate|]. split; [discriminate|]. auto.
    + split; [split; [eauto | reflexivity]|].
      split; [reflexivity|]. split; [discriminate|].
      intros [= Hk]. congruence.
  - split; [split; [discriminate | intros (k & Hk & _); discriminate]|].
    split; [discriminate|]. split; [reflexivity | discriminate].
Qed.

(** ** Worked instances, continued *)

Lemma complete_task_frame_witness :
  let st := {| tasks_db := [Task.mk 1 "A" None "medium" false 0];
               users_db := [];
               task_id_counter := 2;
               user_id_counter := 1 |} in
  (exists t, t ∈ tasks_db st /\ Task.id t = 1)
  /\ exists before task after done st',
       tasks_db st = before ++ task :: after
       /\ Forall (fun t => Task.id t <> 1) before
       /\ Task.id task = 1
       /\ complete_task 1 (jwt.VStr "alice") st = (Return done, st')
       /\ tasks_db st' = before ++ done :: after
       /\ users_db st' = users_db st
       /\ task_id_counter st' = task_id_counter st
       /\ user_id_counter st' = user_id_counter st
       /\ Task.completed done = true
       /\ Task.id done = Task.id task
       /\ Task.title done = Task.title task
       /\ Task.description done = Task.description task
       /\ Task.priority done = Task.priority task
       /\ Task.created_at done = Task.created_at task.
Proof.
  cbn zeta.
  assert (Hstored : exists t,
    t ∈ [Task.mk 1 "A" None "medium" false 0] /\ Task.id t = 1).
  { eexists. split; [apply list_elem_of_here | reflexivity]. }
  split; [exact Hstored|].
  apply (complete_task_frame 1 (jwt.VStr "alice")
           {| tasks_db := [Task.mk 1 "A" None "medium" false 0];
              users_db := [];
              task_id_counter := 2;
              user_id_counter := 1 |}).
  exact Hstored.
Defined.


Lemma signup_login_me_witness :
  let user := UserCreate.mk "alice" "alice@example.org" "secret" in
  (forall u, u ∈ users_db initial_store ->
     User.username u <> UserCreate.username user)
  /\ 20 < 10 + timedelta ACCESS_TOKEN_EXPIRE_MINUTES
  /\ exists new_user st1 tok,
       create_user 1 user initial_store = (Return new_user, st1)
       /\ login ∅ 10 (UserCreate.username user) "anything" st1
          = (Return (Token.mk tok "bearer"), st1)
       /\ app ∅ 20 (GET_auth_me (Some (Bearer tok))) st1
          = (Return (UserBody new_user), st1).
Proof.
  cbn zeta.
  assert (Hfree : forall u, u ∈ users_db initial_store ->
    User.username u <> "alice").
  { intros u Hu. apply elem_of_nil in Hu. destruct Hu. }
  assert (Hlive : 20 < 10 + timedelta ACCESS_TOKEN_EXPIRE_MINUTES)
    by reflexivity.
  split; [exact Hfree|]. split; [exact Hlive|].
  exact (signup_login_me ∅ 1 (UserCreate.mk "alice" "alice@example.org" "secret")
           10 "anything" 20 initial_store Hfree Hlive).
Defined.

(** A verifying token whose subject was never registered. *)
Lemma current_user_lookup_witness :
  let creds := Bearer (create_access_token ∅ 0 (sub_claims "ghost")) in
  verify_token ∅ 0 creds = Return (jwt.VStr "ghost")
  /\ snd (app ∅ 0 (GET_auth_me (Some creds)) initial_store) = initial_store
  /\ match fst (app ∅ 0 (GET_auth_me (Some creds)) initial_store) with
     | Return (UserBody user) =>
         user ∈ users_db initial_store /\ User.username user = "ghost"
     | Return _ => False
     | Raise e =>
         e = mkHTTPException 404 "User not found"
         /\ forall u, u ∈ users_db initial_store -> User.username u <> "ghost"
     end.
Proof.
  cbn zeta.
  assert (Hverify :
    verify_token ∅ 0 (Bearer (create_access_token ∅ 0 (sub_claims "ghost")))
    = Return (jwt.VStr "ghost")).
  { rewrite verify_issued. vm_compute. reflexivity. }
  split; [exact Hverify|].
  exact (current_user_lookup ∅ 0 _ "ghost" initial_store Hverify).
Defined.


